(** * The Singleton holder of [src/Singleton/singleton.py]

    A shallow embedding of the module: the class [Singleton] with its
    class attribute [_instance] and its [__new__], the three usage lines at
    module scope, and the fragment of the Python 3 object protocol the
    module calls into ([type.__call__], [object.__new__],
    [object.__init__], truth testing, [is], [print]).

    Python code runs against one mutable process state; it is threaded
    explicitly through a state-and-exception monad. *)

From Stdlib Require Import ZArith Lia.
From stdpp Require Import base option list gmap strings.

(** ** The fragment of the Python runtime used by the module *)
Module Py.

(** An object reference is the address of an object in the heap. *)
Definition ref := nat.

(** What a variable, an attribute or an argument can hold: the singletons
    [None], [True], [False], or a reference to a heap object. *)
Inductive value :=
| VNone
| VBool (b : bool)
| VRef (r : ref).

#[global] Instance value_eq_dec : EqDecision value.
Proof. solve_decision. Defined.

(** The slots of a type object that the builtins below consult.
    [tp_new_overridden] says [tp_new != object_new], [tp_init_overridden]
    says [tp_init != object_init]; [tp_bool] and [tp_len] are the answers of
    [__bool__] and [__len__] when the class defines them. *)
Record typeobject := {
  tp_name : string;
  tp_new_overridden : bool;
  tp_init_overridden : bool;
  tp_bool : option bool;
  tp_len : option Z
}.

#[global] Instance typeobject_eq_dec : EqDecision typeobject.
Proof. solve_decision. Defined.

(** Heap objects: [int] and [str] objects (literals a caller may pass as
    arguments) and instances of user classes. *)
Inductive pyobject :=
| OInt (n : Z)
| OStr (s : string)
| OInstance (t : typeobject).

Inductive exn :=
| TypeError (msg : string)
| NameError (name : string).

Inductive outcome (A : Type) :=
| Ok (a : A)
| Raise (e : exn).
Arguments Ok {A} a.
Arguments Raise {A} e.

(** Instrumentation only (no Python code reads it): every execution of the
    call [super(Singleton, cls).__new__(cls, *args, **kwargs)] with its
    arguments and outcome, and every execution of the assignment
    [cls._instance = ...]. *)
Inductive event :=
| ECtor (args : list value) (kwargs : gmap string value) (res : outcome value)
| EStore (v : value).

(** The process state.  [_instance] is the class attribute
    [Singleton._instance]; [globals] is the module namespace. *)
Record process := mkProcess {
  heap : list pyobject;
  _instance : value;
  globals : gmap string value;
  stdout : list string;
  log : list event
}.

Definition M (A : Type) : Type := process -> outcome A * process.

#[global] Instance M_ret : MRet M := fun A a σ => (Ok a, σ).

#[global] Instance M_bind : MBind M := fun A B k m σ =>
  match m σ with
  | (Ok a, σ') => k a σ'
  | (Raise e, σ') => (Raise e, σ')
  end.

Definition raise {A} (e : exn) : M A := fun σ => (Raise e, σ).

Definition get_heap : M (list pyobject) := fun σ => (Ok (heap σ), σ).

(** Allocation never reuses an address: the new object goes to the end of
    the heap (nothing is ever freed in this module: the class attribute and
    the module globals keep the instance alive). *)
Definition alloc (o : pyobject) : M ref :=
  fun σ => (Ok (length (heap σ)),
            mkProcess (heap σ ++ [o]) (_instance σ) (globals σ) (stdout σ) (log σ)).

Definition store_global (name : string) (v : value) : M unit :=
  fun σ => (Ok tt,
            mkProcess (heap σ) (_instance σ) (<[name := v]> (globals σ))
                      (stdout σ) (log σ)).

Definition load_global (name : string) : M value :=
  fun σ => match globals σ !! name with
           | Some v => (Ok v, σ)
           | None => (Raise (NameError name), σ)
           end.

(** [print(x)] writes [str(x)] and a newline; [stdout] keeps the lines. *)
Definition print (line : string) : M unit :=
  fun σ => (Ok tt,
            mkProcess (heap σ) (_instance σ) (globals σ) (stdout σ ++ [line]) (log σ)).

(** [str(True)] and [str(False)]. *)
Definition str_bool (b : bool) : string := if b then "True" else "False".

(** [a is b]: identity.  [None], [True] and [False] are unique objects. *)
Definition is_ (a b : value) : bool :=
  match a, b with
  | VNone, VNone => true
  | VBool x, VBool y => bool_decide (x = y)
  | VRef r, VRef s => bool_decide (r = s)
  | _, _ => false
  end.

(** Truth testing ([PyObject_IsTrue]): [True], [False] and [None] are
    answered directly; otherwise [__bool__] if the type has it, else
    [__len__] (non-zero is true), else true.  [tp_bool] and [tp_len] stand
    for methods that return at once, without effect, a [bool] and a length
    from 0 to [sys.maxsize]: a [__len__] answering outside that range, or
    a method that raises or changes the state, is not described by this
    total function.  [Singleton] has neither method; statements about
    arbitrary slot contents are restricted by [plain_truth] below. *)
Definition type_truth (t : typeobject) : bool :=
  match tp_bool t with
  | Some b => b
  | None => match tp_len t with
            | Some n => bool_decide (0 < n)%Z
            | None => true
            end
  end.

Definition object_truth (o : pyobject) : bool :=
  match o with
  | OInt n => negb (bool_decide (n = 0%Z))
  | OStr s => negb (bool_decide (s = ""))
  | OInstance t => type_truth t
  end.

Definition PyObject_IsTrue (h : list pyobject) (v : value) : bool :=
  match v with
  | VNone => false
  | VBool b => b
  | VRef r => from_option object_truth true (h !! r)
  end.

(** [excess_args]: some positional or keyword argument was passed. *)
Definition excess_args (args : list value) (kwargs : gmap string value) : bool :=
  bool_decide (0 < length args) || bool_decide (0 < size kwargs).

(** [object.__new__(type, *args, **kwargs)] ([object_new]): with excess
    arguments it raises when the type overrides [__new__], or when it does
    not override [__init__]; otherwise it allocates an instance.  Every
    Python 3 raises [TypeError] in these cases; the messages are those of
    CPython 3.7 and later. *)
Definition object_new (type : typeobject) (args : list value)
    (kwargs : gmap string value) : M value :=
  if excess_args args kwargs && tp_new_overridden type then
    raise (TypeError "object.__new__() takes exactly one argument (the type to instantiate)")
  else if excess_args args kwargs && negb (tp_init_overridden type) then
    raise (TypeError (tp_name type ++ "() takes no arguments"))
  else
    r ← alloc (OInstance type); mret (VRef r).

(** The type of a heap instance ([Py_TYPE]); [None] stands for the builtin
    types of [None], [bool], [int] and [str] objects. *)
Definition type_of (h : list pyobject) (v : value) : option typeobject :=
  match v with
  | VRef r => match h !! r with
              | Some (OInstance t) => Some t
              | _ => None
              end
  | _ => None
  end.

(** [object.__init__(self, *args, **kwargs)] ([object_init]): with excess
    arguments it raises when the type overrides [__init__], or when it does
    not override [__new__]; otherwise it does nothing.  For [Singleton],
    which overrides [__new__] only, it never raises. *)
Definition object_init (self : value) (args : list value)
    (kwargs : gmap string value) : M unit :=
  h ← get_heap;
  match type_of h self with
  | Some type =>
      if excess_args args kwargs && tp_init_overridden type then
        raise (TypeError "object.__init__() takes exactly one argument (the instance to initialize)")
      else if excess_args args kwargs && negb (tp_new_overridden type) then
        raise (TypeError (tp_name type ++
          ".__init__() takes exactly one argument (the instance to initialize)"))
      else mret tt
  | None => mret tt
  end.

(** [isinstance(obj, type)] as [type_call] tests it ([PyObject_TypeCheck]);
    the module defines no subclass, so this is a test on the exact type. *)
Definition instance_of (h : list pyobject) (obj : value) (type : typeobject) : bool :=
  bool_decide (type_of h obj = Some type).

(** Calling a class, [type(...)] ([type_call]): run the type's
    [__new__]; if the result is an instance of the type, run [__init__] on
    it with the same arguments; return the result. *)
Definition type_call (type : typeobject)
    (tp_new : typeobject -> list value -> gmap string value -> M value)
    (tp_init : value -> list value -> gmap string value -> M unit)
    (args : list value) (kwargs : gmap string value) : M value :=
  obj ← tp_new type args kwargs;
  h ← get_heap;
  if instance_of h obj type then tp_init obj args kwargs;; mret obj
  else mret obj.

End Py.

Import Py.

(** ** The class [Singleton] *)
Module Singleton.

(** The class statement binds [_instance] and [__new__] only: the type
    overrides [__new__], inherits [object.__init__], and has neither
    [__bool__] nor [__len__]. *)
Definition type : typeobject := {|
  tp_name := "Singleton";
  tp_new_overridden := true;
  tp_init_overridden := false;
  tp_bool := None;
  tp_len := None
|}.

(** [cls._instance] read on the class. *)
Definition get_instance : M value := fun σ => (Ok (_instance σ), σ).

(** [cls._instance = v]. *)
Definition set_instance (v : value) : M unit :=
  fun σ => (Ok tt,
            mkProcess (heap σ) v (globals σ) (stdout σ) (log σ ++ [EStore v])).

(** [super(Singleton, cls).__new__(cls, *args, **kwargs)]: the next class
    after [Singleton] in the method resolution order is [object]. *)
Definition super_new (cls : typeobject) (args : list value)
    (kwargs : gmap string value) : M value :=
  fun σ => let '(res, σ') := object_new cls args kwargs σ in
           (res, mkProcess (heap σ') (_instance σ') (globals σ') (stdout σ')
                           (log σ' ++ [ECtor args kwargs res])).

(** [def __new__(cls, *args, **kwargs)].  [cls] is [Singleton] itself: the
    module has no subclass, so [cls._instance] is the attribute of
    [Singleton]. *)
Definition __new__ (cls : typeobject) (args : list value)
    (kwargs : gmap string value) : M value :=
  inst ← get_instance;
  h ← get_heap;
  (if negb (PyObject_IsTrue h inst) then
     obj ← super_new cls args kwargs;
     set_instance obj
   else mret tt);;
  get_instance.

(** The call [Singleton(...)] with positional arguments [args] and keyword
    arguments [kwargs]: calling the class goes through [type.__call__]. *)
Definition call (args : list value) (kwargs : gmap string value) : M value :=
  type_call type __new__ object_init args kwargs.

End Singleton.

(** ** The module *)

(** The state once the class statement (lines 1-7) has run: [_instance] is
    [None], nothing is allocated, nothing is printed. *)
Definition fresh : process := mkProcess [] VNone ∅ [] [].

(** Lines 10-13. *)
Definition usage : M unit :=
  singleton1 ← Singleton.call [] ∅;
  store_global "singleton1" singleton1;;
  singleton2 ← Singleton.call [] ∅;
  store_global "singleton2" singleton2;;
  a ← load_global "singleton1";
  b ← load_global "singleton2";
  print (str_bool (is_ a b)).

(** The state every importer of the module starts from. *)
Definition loaded : process := (usage fresh).2.

(** What the rest of the program can do to the holder: call it with any
    arguments, or create objects of its own (here, [int] and [str]
    objects, e.g. to pass them as arguments). *)
Inductive action :=
| ACall (args : list value) (kwargs : gmap string value)
| ANewInt (n : Z)
| ANewStr (s : string).

Definition perform (a : action) : M value :=
  match a with
  | ACall args kwargs => Singleton.call args kwargs
  | ANewInt n => r ← alloc (OInt n); mret (VRef r)
  | ANewStr s => r ← alloc (OStr s); mret (VRef r)
  end.

(** Run a sequence of actions; an exception is seen by the caller of that
    action and the program goes on (the caller may catch it).  The result
    lists the outcome of every call to [Singleton], in order. *)
Fixpoint run (acts : list action) (σ : process) : list (outcome value) * process :=
  match acts with
  | [] => ([], σ)
  | a :: rest =>
      let '(o, σ1) := perform a σ in
      let '(os, σ2) := run rest σ1 in
      (match a with ACall _ _ => o :: os | _ => os end, σ2)
  end.

(** The process as the program lives it: the module body runs first, then
    the rest of the program acts. *)
Definition lifetime (acts : list action) : list (outcome value) * process :=
  run acts loaded.

(** ** States, instrumentation and runs: the vocabulary of the statements *)

Definition is_ctor (e : event) : bool :=
  match e with ECtor _ _ _ => true | EStore _ => false end.

Definition is_ctor_ok (e : event) : bool :=
  match e with ECtor _ _ (Ok _) => true | _ => false end.

Definition is_store (e : event) : bool :=
  match e with EStore _ => true | ECtor _ _ _ => false end.

(** How many times the call to [super().__new__] was executed, how many of
    these executions returned an object, and how many times the assignment
    to [cls._instance] was executed. *)
Definition ctor_runs (σ : process) : nat := length (filter is_ctor (log σ)).
Definition ctor_successes (σ : process) : nat := length (filter is_ctor_ok (log σ)).
Definition slot_writes (σ : process) : nat := length (filter is_store (log σ)).

(** The slot is absent, or it refers to an object of the heap that is an
    instance of [Singleton]. *)
Definition slot_ok (σ : process) : Prop :=
  _instance σ = VNone ∨
  ∃ r, _instance σ = VRef r ∧ heap σ !! r = Some (OInstance Singleton.type).

(** The two states of the pattern's state machine. *)
Inductive phase := Uninitialized | Initialized.

Definition phase_of (σ : process) : phase :=
  match _instance σ with
  | VNone => Uninitialized
  | _ => Initialized
  end.

(** The state after a first construction from [σ] with the given
    arguments, and the state after a construction attempt that raised. *)
Definition after_construction (σ : process) (args : list value)
    (kwargs : gmap string value) : process :=
  let obj := VRef (length (heap σ)) in
  mkProcess (heap σ ++ [OInstance Singleton.type]) obj (globals σ) (stdout σ)
            ((log σ ++ [ECtor args kwargs (Ok obj)]) ++ [EStore obj]).

Definition after_failure (σ : process) (args : list value)
    (kwargs : gmap string value) (e : exn) : process :=
  mkProcess (heap σ) (_instance σ) (globals σ) (stdout σ)
            (log σ ++ [ECtor args kwargs (Raise e)]).

Definition new_takes_one_argument : exn :=
  TypeError "object.__new__() takes exactly one argument (the type to instantiate)".

(** The three behaviours of a call made in a state whose slot is well
    formed: the slot holds an instance; the slot is absent and the call
    passes no argument; the slot is absent and the call passes some. *)
Inductive call_spec (σ : process) (args : list value) (kwargs : gmap string value)
  : outcome value * process → Prop :=
| call_hit r :
    _instance σ = VRef r →
    heap σ !! r = Some (OInstance Singleton.type) →
    call_spec σ args kwargs (Ok (VRef r), σ)
| call_build :
    _instance σ = VNone →
    excess_args args kwargs = false →
    call_spec σ args kwargs
      (Ok (VRef (length (heap σ))), after_construction σ args kwargs)
| call_fail :
    _instance σ = VNone →
    excess_args args kwargs = true →
    call_spec σ args kwargs
      (Raise new_takes_one_argument,
       after_failure σ args kwargs new_takes_one_argument).

(** The class has just been defined; or the module body has run; or, from
    such a state, the rest of the program has acted. *)
Inductive reachable : process → Prop :=
| reach_fresh : reachable fresh
| reach_loaded : reachable loaded
| reach_step σ a : reachable σ → reachable (perform a σ).2.

Definition is_call (a : action) : bool :=
  match a with ACall _ _ => true | _ => false end.

Definition ncalls (acts : list action) : nat := length (filter is_call acts).

(** Every execution of the assignment follows a constructor run that
    returned; there is none while the holder is uninitialized and exactly
    one once it is initialized. *)
Definition log_ok (σ : process) : Prop :=
  slot_writes σ = ctor_successes σ
  ∧ ctor_successes σ = match phase_of σ with
                       | Uninitialized => 0
                       | Initialized => 1
                       end.

(** A call either returns [v] or raises. *)
Definition returns_or_raises (v : value) (o : outcome value) : Prop :=
  o = Ok v ∨ ∃ e, o = Raise e.


(** The heap object at [r] is an instance of the class. *)
Definition is_instance_at (σ : process) (r : ref) : Prop :=
  heap σ !! r = Some (OInstance Singleton.type).

(** Every instance of the class in the heap is the one the slot holds. *)
Definition instances_in_slot (σ : process) : Prop :=
  ∀ r, is_instance_at σ r → _instance σ = VRef r.

(** The truth test of [v] is one of the builtin ones, which cannot raise
    and have no effect: [v] is [None], [True] or [False], or refers to an
    [int] or [str] object, or to an instance of a class that defines
    neither [__bool__] nor [__len__] (as [Singleton] does not). *)
Definition plain_truth (h : list pyobject) (v : value) : bool :=
  match v with
  | VRef r => match h !! r with
              | Some (OInstance t) =>
                  bool_decide (tp_bool t = None) && bool_decide (tp_len t = None)
              | Some _ => true
              | None => false
              end
  | _ => true
  end.

(** * Properties *)

(** ** The three behaviours of a call *)

#[local] Arguments excess_args : simpl never.

(** Unfold the monadic plumbing and the builtins, then compute. *)
Ltac py_unfold :=
  unfold Singleton.call, type_call, Singleton.__new__, Singleton.super_new,
    Singleton.get_instance, Singleton.set_instance, object_new, object_init,
    instance_of, type_of, get_heap, alloc, raise,
    mbind, M_bind, mret, M_ret in *;
  cbn in *.

Ltac py_eval := repeat (progress py_unfold).

Lemma call_initialized σ r args kwargs :
  _instance σ = VRef r →
  heap σ !! r = Some (OInstance Singleton.type) →
  Singleton.call args kwargs σ = (Ok (VRef r), σ).
Proof.
  intros Hi Hr. py_eval.
  rewrite Hi. py_eval. rewrite Hr. py_eval. rewrite Hi. py_eval.
  rewrite Hr. py_eval.
  rewrite bool_decide_eq_true_2 by done. py_eval.
  rewrite Hr. py_eval.
  by rewrite !andb_false_r.
Qed.

(** The test of line 5 is a truth test: the construction branch is taken
    whenever the slot holds something false, [None] or not. *)
Lemma call_falsy_constructs σ args kwargs :
  PyObject_IsTrue (heap σ) (_instance σ) = false →
  excess_args args kwargs = false →
  Singleton.call args kwargs σ
  = (Ok (VRef (length (heap σ))), after_construction σ args kwargs).
Proof.
  intros Hi He. py_eval.
  rewrite Hi. py_eval. rewrite He. py_eval.
  rewrite !lookup_app_r, !Nat.sub_diag by done. py_eval.
  rewrite bool_decide_eq_true_2 by done. py_eval.
  by rewrite !lookup_app_r, !Nat.sub_diag by done.
Qed.

Lemma call_falsy_raises σ args kwargs :
  PyObject_IsTrue (heap σ) (_instance σ) = false →
  excess_args args kwargs = true →
  Singleton.call args kwargs σ
  = (Raise new_takes_one_argument,
     after_failure σ args kwargs new_takes_one_argument).
Proof.
  intros Hi He. py_eval.
  rewrite Hi. py_eval. rewrite He. by py_eval.
Qed.

Lemma call_constructs σ args kwargs :
  _instance σ = VNone →
  excess_args args kwargs = false →
  Singleton.call args kwargs σ
  = (Ok (VRef (length (heap σ))), after_construction σ args kwargs).
Proof. intros Hi. apply call_falsy_constructs. by rewrite Hi. Qed.

Lemma call_raises σ args kwargs :
  _instance σ = VNone →
  excess_args args kwargs = true →
  Singleton.call args kwargs σ
  = (Raise new_takes_one_argument,
     after_failure σ args kwargs new_takes_one_argument).
Proof. intros Hi. apply call_falsy_raises. by rewrite Hi. Qed.

Lemma call_cases σ args kwargs :
  slot_ok σ → call_spec σ args kwargs (Singleton.call args kwargs σ).
Proof.
  intros [Hn | (r & Hi & Hr)].
  - destruct (excess_args args kwargs) eqn:He.
    + rewrite call_raises by done. by constructor.
    + rewrite call_constructs by done. by constructor.
  - rewrite (call_initialized σ r) by done. by econstructor.
Qed.

Lemma run_cons a rest σ :
  run (a :: rest) σ
  = (match a with
     | ACall _ _ => (perform a σ).1 :: (run rest (perform a σ).2).1
     | _ => (run rest (perform a σ).2).1
     end, (run rest (perform a σ).2).2).
Proof.
  cbn [run]. destruct (perform a σ) as [o σ1]. cbn [fst snd].
  by destruct (run rest σ1) as [os σ2].
Qed.

Lemma run_reachable acts σ : reachable σ → reachable (run acts σ).2.
Proof.
  revert σ. induction acts as [|a rest IH]; intros σ Hσ; [done|].
  rewrite run_cons. cbn [snd]. apply IH. by constructor.
Qed.

Lemma slot_ok_after_construction σ args kwargs :
  slot_ok (after_construction σ args kwargs).
Proof.
  right. exists (length (heap σ)). split; [done|]. cbn.
  by rewrite lookup_app_r, Nat.sub_diag.
Qed.

Lemma slot_ok_alloc σ o : slot_ok σ → slot_ok (alloc o σ).2.
Proof.
  intros [Hn | (r & Hi & Hr)]; [by left|].
  right. exists r. split; [done|]. cbn.
  apply lookup_app_l_Some, Hr.
Qed.

Lemma perform_slot_ok a σ : slot_ok σ → slot_ok (perform a σ).2.
Proof.
  intros Hσ. destruct a as [args kwargs | n | s]; cbn [perform].
  - destruct (call_cases σ args kwargs Hσ); cbn [snd]; [done| |by left].
    apply slot_ok_after_construction.
  - by apply (slot_ok_alloc σ (OInt n)).
  - by apply (slot_ok_alloc σ (OStr s)).
Qed.

Lemma loaded_eq :
  usage fresh
  = (Ok tt,
     mkProcess [OInstance Singleton.type] (VRef 0)
       (<["singleton2" := VRef 0]> (<["singleton1" := VRef 0]> ∅))
       ["True"]
       [ECtor [] ∅ (Ok (VRef 0)); EStore (VRef 0)]).
Proof. reflexivity. Qed.

Lemma slot_ok_loaded : slot_ok loaded.
Proof. right. by exists 0. Qed.

Lemma reachable_slot_ok σ : reachable σ → slot_ok σ.
Proof.
  induction 1 as [| |σ a _ IH]; [by left|apply slot_ok_loaded|].
  by apply perform_slot_ok.
Qed.

(** ** Runs from an initialized holder *)

Lemma perform_new_int n σ :
  perform (ANewInt n) σ = (Ok (VRef (length (heap σ))), (alloc (OInt n) σ).2).
Proof. reflexivity. Qed.

Lemma perform_new_str s σ :
  perform (ANewStr s) σ = (Ok (VRef (length (heap σ))), (alloc (OStr s) σ).2).
Proof. reflexivity. Qed.

Lemma ncalls_cons a rest :
  ncalls (a :: rest) = (if is_call a then S (ncalls rest) else ncalls rest).
Proof. unfold ncalls. rewrite filter_cons. by destruct a. Qed.

(** Once the slot holds an instance, every later call returns it and the
    run changes nothing but the heap, which only grows by the objects the
    rest of the program creates. *)
Lemma run_initialized acts σ r :
  _instance σ = VRef r →
  heap σ !! r = Some (OInstance Singleton.type) →
  (run acts σ).1 = replicate (ncalls acts) (Ok (VRef r))
  ∧ _instance (run acts σ).2 = VRef r
  ∧ log (run acts σ).2 = log σ
  ∧ globals (run acts σ).2 = globals σ
  ∧ stdout (run acts σ).2 = stdout σ
  ∧ heap σ `prefix_of` heap (run acts σ).2.
Proof.
  revert σ. induction acts as [|a rest IH]; intros σ Hi Hr.
  { by repeat split. }
  rewrite run_cons, ncalls_cons.
  destruct a as [args kwargs | n | s];
    rewrite ?perform_new_int, ?perform_new_str; cbn [perform is_call fst snd].
  - rewrite (call_initialized σ r) by done. cbn [fst snd].
    destruct (IH σ Hi Hr) as (-> & ? & ? & ? & ? & ?). by repeat split.
  - destruct (IH (alloc (OInt n) σ).2) as (-> & ? & ? & ? & ? & Hp);
      [done|by apply lookup_app_l_Some|].
    repeat split; try done.
    etrans; [|exact Hp]. by apply prefix_app_r.
  - destruct (IH (alloc (OStr s) σ).2) as (-> & ? & ? & ? & ? & Hp);
      [done|by apply lookup_app_l_Some|].
    repeat split; try done.
    etrans; [|exact Hp]. by apply prefix_app_r.
Qed.

(** ** What the instrumentation records in reachable states *)

Lemma after_construction_counts σ args kwargs :
  ctor_runs (after_construction σ args kwargs) = S (ctor_runs σ)
  ∧ ctor_successes (after_construction σ args kwargs) = S (ctor_successes σ)
  ∧ slot_writes (after_construction σ args kwargs) = S (slot_writes σ).
Proof.
  unfold after_construction, ctor_runs, ctor_successes, slot_writes. cbn.
  rewrite !filter_app, !length_app. cbn.
  repeat case_decide; try tauto. cbn. lia.
Qed.

Lemma after_failure_counts σ args kwargs e :
  ctor_runs (after_failure σ args kwargs e) = S (ctor_runs σ)
  ∧ ctor_successes (after_failure σ args kwargs e) = ctor_successes σ
  ∧ slot_writes (after_failure σ args kwargs e) = slot_writes σ.
Proof.
  unfold after_failure, ctor_runs, ctor_successes, slot_writes. cbn.
  rewrite !filter_app, !length_app. cbn.
  repeat case_decide; try tauto. cbn. lia.
Qed.

Lemma perform_log_ok a σ : slot_ok σ → log_ok σ → log_ok (perform a σ).2.
Proof.
  intros Hσ [Hw Hc]. destruct a as [args kwargs | n | s]; cbn [perform].
  - destruct (call_cases σ args kwargs Hσ) as [r Hi Hr | Hi He | Hi He];
      cbn [snd]; [done| |]; unfold log_ok, phase_of in *; rewrite Hi in Hc.
    + destruct (after_construction_counts σ args kwargs) as (_ & -> & ->).
      cbn. split; lia.
    + destruct (after_failure_counts σ args kwargs new_takes_one_argument)
        as (_ & -> & ->).
      cbn. by rewrite Hi.
  - by split.
  - by split.
Qed.

Lemma reachable_log_ok σ : reachable σ → log_ok σ.
Proof.
  induction 1 as [| |σ a Hσ IH]; [by split|by split|].
  apply perform_log_ok; [by apply reachable_slot_ok|done].
Qed.

(** ** Outcomes of a run *)

Lemma Forall_returns_replicate n v :
  Forall (returns_or_raises v) (replicate n (Ok v)).
Proof. apply Forall_replicate. by left. Qed.

Lemma run_outcomes acts σ :
  slot_ok σ → ∃ r, Forall (returns_or_raises (VRef r)) (run acts σ).1.
Proof.
  revert σ. induction acts as [|a rest IH]; intros σ Hσ.
  { exists 0. constructor. }
  rewrite run_cons.
  destruct a as [args kwargs | n | s];
    rewrite ?perform_new_int, ?perform_new_str; cbn [perform fst snd].
  - destruct (call_cases σ args kwargs Hσ) as [r Hi Hr | Hi He | Hi He];
      cbn [fst snd].
    + exists r. destruct (run_initialized rest σ r Hi Hr) as (-> & _).
      constructor; [by left|apply Forall_returns_replicate].
    + exists (length (heap σ)).
      destruct (run_initialized rest (after_construction σ args kwargs)
                  (length (heap σ))) as (-> & _); [done| |].
      { cbn. by rewrite lookup_app_r, Nat.sub_diag. }
      constructor; [by left|apply Forall_returns_replicate].
    + destruct (IH (after_failure σ args kwargs new_takes_one_argument))
        as [r Hr]; [by left|].
      exists r. constructor; [right; by eexists|done].
  - apply IH. by apply (slot_ok_alloc σ (OInt n)).
  - apply IH. by apply (slot_ok_alloc σ (OStr s)).
Qed.

Lemma run_after_first_call acts :
  (run (ACall [] ∅ :: acts) fresh).1 = replicate (S (ncalls acts)) (Ok (VRef 0))
  ∧ log (run (ACall [] ∅ :: acts) fresh).2
    = [ECtor [] ∅ (Ok (VRef 0)); EStore (VRef 0)]
  ∧ _instance (run (ACall [] ∅ :: acts) fresh).2 = VRef 0.
Proof.
  rewrite run_cons. cbn [perform fst snd].
  rewrite (call_constructs fresh) by done. cbn [fst snd].
  destruct (run_initialized acts (after_construction fresh [] ∅) 0)
    as (-> & -> & -> & _); done.
Qed.

Lemma lifetime_spec acts :
  (lifetime acts).1 = replicate (ncalls acts) (Ok (VRef 0))
  ∧ _instance (lifetime acts).2 = VRef 0
  ∧ log (lifetime acts).2 = [ECtor [] ∅ (Ok (VRef 0)); EStore (VRef 0)]
  ∧ globals (lifetime acts).2 = globals loaded
  ∧ stdout (lifetime acts).2 = ["True"]
  ∧ heap loaded `prefix_of` heap (lifetime acts).2.
Proof. by apply (run_initialized acts loaded 0). Qed.

(** ** Identity *)


(** Any two calls that return, return identical references ([is] holds). *)
Lemma returned_pair_identical acts i j v w :
  (run acts fresh).1 !! i = Some (Ok v) →
  (run acts fresh).1 !! j = Some (Ok w) →
  v = w ∧ is_ v w = true.
Proof.
  intros Hi Hj.
  destruct (run_outcomes acts fresh) as [r Hr]; [by left|].
  rewrite Forall_lookup in Hr.
  destruct (Hr _ _ Hi) as [[= ->] | [e [=]]].
  destruct (Hr _ _ Hj) as [[= ->] | [e [=]]].
  split; [done|]. cbn. by apply bool_decide_eq_true_2.
Qed.

(** ** Single construction *)

(** C2. In a process lifetime (the module body, then any actions of the
    rest of the program) the call to [super().__new__] is executed exactly
    once, hence at most once.  From the freshly defined class, whatever the
    calls and their arguments, at most one execution of it returns an
    object; and when the first call passes no argument it is executed
    exactly once. *)
Theorem single_construction (acts : list action) :
  ctor_runs (lifetime acts).2 = 1
  ∧ ctor_successes (run acts fresh).2 ≤ 1
  ∧ ctor_runs (run (ACall [] ∅ :: acts) fresh).2 = 1.
Proof.
  split; [|split].
  - unfold ctor_runs. by destruct (lifetime_spec acts) as (_ & _ & -> & _).
  - destruct (reachable_log_ok (run acts fresh).2) as [_ Hc].
    { apply run_reachable, reach_fresh. }
    rewrite Hc. destruct (phase_of _); lia.
  - unfold ctor_runs. by destruct (run_after_first_call acts) as (_ & -> & _).
Qed.

(** ** The demonstration *)

(** C3. On the freshly defined class the first call returns [r1], the
    second returns [r2], [r1 is r2] is [True], the module body completes
    without raising, binds [singleton1] and [singleton2] to the two
    references and prints exactly that boolean: [True]. *)
Theorem usage_prints_True :
  ∃ r1 r2 σ1 σ2,
    Singleton.call [] ∅ fresh = (Ok r1, σ1)
    ∧ Singleton.call [] ∅ σ1 = (Ok r2, σ2)
    ∧ is_ r1 r2 = true
    ∧ (usage fresh).1 = Ok tt
    ∧ globals (usage fresh).2 !! "singleton1" = Some r1
    ∧ globals (usage fresh).2 !! "singleton2" = Some r2
    ∧ stdout (usage fresh).2 = [str_bool (is_ r1 r2)]
    ∧ stdout (usage fresh).2 = ["True"].
Proof.
  exists (VRef 0), (VRef 0). do 2 eexists.
  split; [reflexivity|]. split; [reflexivity|]. by repeat split.
Qed.

(** ** The slot *)

(** C4. In every reachable state the slot is absent or refers to one
    object of the heap, an instance of [Singleton]; and once the slot is
    not absent, no run of further actions changes what it refers to, so the
    holder stays initialized. *)
Theorem slot_invariant (σ : process) (acts : list action) :
  reachable σ →
  slot_ok σ
  ∧ (phase_of σ = Initialized →
     _instance (run acts σ).2 = _instance σ
     ∧ phase_of (run acts σ).2 = Initialized).
Proof.
  intros Hσ. pose proof (reachable_slot_ok σ Hσ) as Hok.
  split; [done|]. intros Hp.
  destruct Hok as [Hn | (r & Hi & Hr)].
  { unfold phase_of in Hp. by rewrite Hn in Hp. }
  destruct (run_initialized acts σ r Hi Hr) as (_ & Hi' & _).
  unfold phase_of. by rewrite Hi', Hi.
Qed.

Lemma slot_invariant_witness :
  reachable loaded
  ∧ phase_of loaded = Initialized
  ∧ slot_ok loaded
  ∧ _instance (run [ACall [VBool true] ∅; ANewInt 7; ACall [] ∅] loaded).2
    = _instance loaded.
Proof.
  split; [apply reach_loaded|]. split; [reflexivity|].
  destruct (slot_invariant loaded [ACall [VBool true] ∅; ANewInt 7; ACall [] ∅]
              reach_loaded) as [Hok Hmono].
  split; [exact Hok|]. apply Hmono. reflexivity.
Defined.

(** ** Construction arguments *)

(** Arguments passed once the holder is initialized are ignored: the call
    returns the stored instance and leaves the whole state as it was. *)
Lemma later_arguments_ignored args2 kwargs2 :
  run [ACall [] ∅; ACall args2 kwargs2] fresh
  = ([Ok (VRef 0); Ok (VRef 0)], after_construction fresh [] ∅).
Proof.
  rewrite !run_cons. cbn [perform run fst snd].
  rewrite (call_constructs fresh) by done. cbn [fst snd].
  by rewrite (call_initialized (after_construction fresh [] ∅) 0).
Qed.

(** Any argument, positional or keyword, passed while the slot is absent
    makes the call raise. *)
Lemma first_arguments_rejected σ args kwargs :
  _instance σ = VNone →
  (args ≠ [] ∨ kwargs ≠ ∅) →
  (Singleton.call args kwargs σ).1 = Raise new_takes_one_argument.
Proof.
  intros Hi Hargs. rewrite call_raises; [done|done|].
  unfold excess_args. destruct Hargs as [Ha | Hk].
  - destruct args; [done|]. cbn. rewrite bool_decide_eq_true_2; [done|lia].
  - apply orb_true_iff. right. apply bool_decide_eq_true_2.
    destruct (decide (size kwargs = 0)) as [Hz|]; [|lia].
    by apply map_size_empty_iff in Hz.
Qed.

(** On the class as the class statement leaves it (before line 10 has
    run), the call [Singleton(1)] does not return a reference: it raises
    [TypeError], nothing is constructed from its argument, and the instance
    that the following call [Singleton()] returns is constructed by that
    second call, without arguments.  The same happens with a keyword
    argument. *)
Theorem first_call_with_arguments_raises :
  run [ANewInt 1; ACall [VRef 0] ∅; ACall [] ∅] fresh
  = ([Raise new_takes_one_argument; Ok (VRef 1)],
     mkProcess [OInt 1; OInstance Singleton.type] (VRef 1) ∅ []
       [ECtor [VRef 0] ∅ (Raise new_takes_one_argument);
        ECtor [] ∅ (Ok (VRef 1));
        EStore (VRef 1)])
  ∧ (Singleton.call [] {["name" := VNone]} fresh).1
    = Raise new_takes_one_argument.
Proof. split; reflexivity. Qed.




(** ** Failure of the constructor *)





(** ** The algorithm *)



(** ** Frame *)

(** What one call may change, in a state whose slot is well formed: either
    it is the constructing call (the holder was uninitialized, the call
    returns, the assignment runs once, the heap gains the new instance), or
    slot and heap stay as they are.  Globals and output are never touched,
    and no existing object is altered. *)
Lemma call_frame σ args kwargs :
  slot_ok σ →
  globals (Singleton.call args kwargs σ).2 = globals σ
  ∧ stdout (Singleton.call args kwargs σ).2 = stdout σ
  ∧ heap σ `prefix_of` heap (Singleton.call args kwargs σ).2
  ∧ ((phase_of σ = Uninitialized
      ∧ (Singleton.call args kwargs σ).1
        = Ok (_instance (Singleton.call args kwargs σ).2)
      ∧ slot_writes (Singleton.call args kwargs σ).2 = S (slot_writes σ)
      ∧ heap (Singleton.call args kwargs σ).2
        = heap σ ++ [OInstance Singleton.type])
     ∨ (_instance (Singleton.call args kwargs σ).2 = _instance σ
        ∧ slot_writes (Singleton.call args kwargs σ).2 = slot_writes σ
        ∧ heap (Singleton.call args kwargs σ).2 = heap σ)).
Proof.
  intros Hσ.
  destruct (call_cases σ args kwargs Hσ) as [r Hi Hr | Hi He | Hi He];
    cbn [fst snd].
  - repeat split; try done. by right.
  - repeat split; try done; [by apply prefix_app_r|].
    left. unfold phase_of. rewrite Hi.
    by destruct (after_construction_counts σ args kwargs) as (_ & _ & ->).
  - repeat split; try done. right.
    by destruct (after_failure_counts σ args kwargs new_takes_one_argument)
      as (_ & _ & ->).
Qed.

(** C8. Over a process lifetime the assignment to the slot is executed
    exactly once.  In any reachable state it has been executed at most
    once: never while the holder is uninitialized, once when it is
    initialized, and as often as the constructor has returned.  A call
    executes it only when the holder is uninitialized and the call returns
    (the first successful construction); apart from the slot and the new
    instance added to the heap, a call changes nothing: globals and output
    are the same and the existing objects are untouched. *)
Theorem slot_written_once σ acts args kwargs :
  reachable σ →
  slot_writes (lifetime acts).2 = 1
  ∧ slot_writes σ ≤ 1
  ∧ slot_writes σ = ctor_successes σ
  ∧ slot_writes σ = match phase_of σ with
                    | Uninitialized => 0
                    | Initialized => 1
                    end
  ∧ globals (Singleton.call args kwargs σ).2 = globals σ
  ∧ stdout (Singleton.call args kwargs σ).2 = stdout σ
  ∧ heap σ `prefix_of` heap (Singleton.call args kwargs σ).2
  ∧ ((phase_of σ = Uninitialized
      ∧ (Singleton.call args kwargs σ).1
        = Ok (_instance (Singleton.call args kwargs σ).2)
      ∧ slot_writes (Singleton.call args kwargs σ).2 = S (slot_writes σ)
      ∧ heap (Singleton.call args kwargs σ).2
        = heap σ ++ [OInstance Singleton.type])
     ∨ (_instance (Singleton.call args kwargs σ).2 = _instance σ
        ∧ slot_writes (Singleton.call args kwargs σ).2 = slot_writes σ
        ∧ heap (Singleton.call args kwargs σ).2 = heap σ)).
Proof.
  intros Hσ.
  destruct (reachable_log_ok σ Hσ) as [Hw Hc].
  split; [|split; [|split; [|split]]].
  - unfold slot_writes. by destruct (lifetime_spec acts) as (_ & _ & -> & _).
  - rewrite Hw, Hc. destruct (phase_of σ); lia.
  - done.
  - by rewrite Hw.
  - by apply call_frame, reachable_slot_ok.
Qed.

Lemma slot_written_once_witness :
  reachable fresh
  ∧ slot_writes (lifetime [ACall [VNone] ∅; ACall [] ∅]).2 = 1
  ∧ slot_writes fresh ≤ 1.
Proof.
  split; [apply reach_fresh|].
  destruct (slot_written_once fresh [ACall [VNone] ∅; ACall [] ∅] [] ∅ reach_fresh)
    as (Hlife & Hle & _).
  split; [exact Hlife|exact Hle].
Defined.

(** ** The absence test *)

(** The test is on truth, not on [None]: with [False] in the slot (which
    no call stores) a call constructs and overwrites the slot. *)
Example falsy_slot_constructs_again :
  Singleton.call [] ∅ (mkProcess [] (VBool false) ∅ [] [])
  = (Ok (VRef 0),
     mkProcess [OInstance Singleton.type] (VRef 0) ∅ []
       [ECtor [] ∅ (Ok (VRef 0)); EStore (VRef 0)]).
Proof. reflexivity. Qed.

(** The same class body on a type whose instances are false (one that
    defined [__bool__] to return [False]): the second call constructs a
    second object. *)
Example falsy_instances_are_not_unique :
  let cls := Build_typeobject "Singleton" true false (Some false) None in
  let call := type_call cls Singleton.__new__ object_init [] ∅ in
  ∃ σ1 σ2, call fresh = (Ok (VRef 0), σ1) ∧ call σ1 = (Ok (VRef 1), σ2).
Proof. do 2 eexists. split; reflexivity. Qed.




(** ** Executing the module *)

(** C10. The class statement leaves the holder uninitialized; the module
    body then makes its two calls, the first of which constructs the
    instance, and prints: it ends, without raising, with the holder
    initialized, [singleton1] and [singleton2] bound to the stored
    instance, one constructor execution and [True] printed.  Whatever the
    rest of the program does afterwards, it finds the slot holding that
    same instance: the holder is never uninitialized again. *)
Theorem module_body_initializes (acts : list action) :
  phase_of fresh = Uninitialized
  ∧ (usage fresh).1 = Ok tt
  ∧ (run [ACall [] ∅; ACall [] ∅] fresh).1 = [Ok (VRef 0); Ok (VRef 0)]
  ∧ heap loaded = heap (run [ACall [] ∅; ACall [] ∅] fresh).2
  ∧ log loaded = log (run [ACall [] ∅; ACall [] ∅] fresh).2
  ∧ _instance loaded = _instance (run [ACall [] ∅] fresh).2
  ∧ _instance loaded = VRef 0
  ∧ phase_of loaded = Initialized
  ∧ globals loaded !! "singleton1" = Some (_instance loaded)
  ∧ globals loaded !! "singleton2" = Some (_instance loaded)
  ∧ ctor_runs loaded = 1
  ∧ stdout loaded = ["True"]
  ∧ _instance (lifetime acts).2 = _instance loaded
  ∧ phase_of (lifetime acts).2 = Initialized.
Proof.
  destruct (lifetime_spec acts) as (_ & Hi & _).
  unfold phase_of. rewrite Hi. by repeat split.
Qed.


(** * Further properties of [__new__] and of the usage lines *)

(** ** Which calls raise *)





(** ** Slots that no call of the holder produces *)



(** X3. If the slot holds a false value with a builtin truth test, [None]
    or not ([False], a zero [int], an empty [str]), a call without
    arguments constructs a new
    instance, at an address that was not in use and that differs from what
    the slot held, stores it in the slot and returns it: the former content
    of the slot is dropped. *)
Theorem falsy_slot_is_overwritten σ args kwargs :
  plain_truth (heap σ) (_instance σ) = true →
  PyObject_IsTrue (heap σ) (_instance σ) = false →
  excess_args args kwargs = false →
  Singleton.call args kwargs σ
  = (Ok (VRef (length (heap σ))), after_construction σ args kwargs)
  ∧ heap σ !! length (heap σ) = None
  ∧ _instance σ ≠ VRef (length (heap σ))
  ∧ _instance (after_construction σ args kwargs) = VRef (length (heap σ))
  ∧ is_instance_at (after_construction σ args kwargs) (length (heap σ))
  ∧ slot_writes (after_construction σ args kwargs) = S (slot_writes σ).
Proof.
  intros _ Hf He. split; [by apply call_falsy_constructs|].
  assert (Hnone : heap σ !! length (heap σ) = None)
    by (by apply lookup_ge_None_2).
  split; [done|]. split.
  { intros Heq. rewrite Heq in Hf. unfold PyObject_IsTrue, ref in Hf.
    by rewrite Hnone in Hf. }
  split; [done|]. split.
  - unfold is_instance_at. cbn. by rewrite lookup_app_r, Nat.sub_diag.
  - apply after_construction_counts.
Qed.

Lemma falsy_slot_is_overwritten_witness :
  Singleton.call [] ∅ (mkProcess [OInt 0] (VRef 0) ∅ [] [])
  = (Ok (VRef 1), after_construction (mkProcess [OInt 0] (VRef 0) ∅ [] []) [] ∅).
Proof.
  apply (falsy_slot_is_overwritten (mkProcess [OInt 0] (VRef 0) ∅ [] []) [] ∅);
    reflexivity.
Defined.

(** ** How many instances exist *)

Lemma instances_in_slot_alloc σ o :
  (∀ t, o ≠ OInstance t) →
  instances_in_slot σ → instances_in_slot (alloc o σ).2.
Proof.
  intros Ho IH r Hr. unfold is_instance_at in Hr. cbn in *.
  apply lookup_app_Some in Hr as [Hr | [_ Hr]]; [by apply IH|].
  apply list_lookup_singleton_Some in Hr as [_ ->]. by destruct (Ho Singleton.type).
Qed.

Lemma perform_instances_in_slot a σ :
  slot_ok σ → instances_in_slot σ → instances_in_slot (perform a σ).2.
Proof.
  intros Hσ IH. destruct a as [args kwargs | n | s];
    rewrite ?perform_new_int, ?perform_new_str; cbn [perform snd].
  - destruct (call_cases σ args kwargs Hσ) as [r Hi Hr | Hi He | Hi He];
      cbn [snd]; [done| |done].
    intros r Hr. unfold is_instance_at in Hr. cbn in *.
    apply lookup_app_Some in Hr as [Hr | [Hle Hr]].
    + apply IH in Hr. congruence.
    + apply list_lookup_singleton_Some in Hr as [Hz _].
      f_equal. unfold ref in *. lia.
  - by apply instances_in_slot_alloc.
  - by apply instances_in_slot_alloc.
Qed.

Lemma reachable_instances_in_slot σ : reachable σ → instances_in_slot σ.
Proof.
  induction 1 as [| |σ a Hσ IH].
  - intros r Hr. by unfold is_instance_at in Hr.
  - intros r Hr. unfold is_instance_at in Hr.
    destruct r as [|r]; [done|]. by destruct r.
  - apply perform_instances_in_slot; [by apply reachable_slot_ok|done].
Qed.

(** X4. In every reachable state the heap holds at most one instance of
    the class, and it is the object the slot refers to: two addresses that
    both hold an instance are the same address, and the holder is
    initialized with it.  Objects the rest of the program creates are never
    instances, and calls create one only while the slot is absent. *)
Theorem at_most_one_instance σ r1 r2 :
  reachable σ →
  is_instance_at σ r1 →
  is_instance_at σ r2 →
  r1 = r2 ∧ _instance σ = VRef r1 ∧ phase_of σ = Initialized.
Proof.
  intros Hσ H1 H2.
  pose proof (reachable_instances_in_slot σ Hσ) as Hinv.
  pose proof (Hinv r1 H1) as E1. pose proof (Hinv r2 H2) as E2.
  split; [congruence|]. split; [done|].
  unfold phase_of. by rewrite E1.
Qed.

Lemma at_most_one_instance_witness :
  reachable loaded ∧ is_instance_at loaded 0 ∧ _instance loaded = VRef 0.
Proof.
  split; [apply reach_loaded|]. split; [reflexivity|].
  apply (at_most_one_instance loaded 0 0 reach_loaded); reflexivity.
Defined.

(** ** Callers that always pass arguments *)




(** ** The usage lines in any state *)

(** Lines 10-13 run while the slot holds an instance [r]: both names are
    bound to [r], [True] is printed, nothing else changes. *)
Lemma usage_initialized σ r :
  _instance σ = VRef r →
  heap σ !! r = Some (OInstance Singleton.type) →
  usage σ
  = (Ok tt,
     mkProcess (heap σ) (_instance σ)
       (<["singleton2" := VRef r]> (<["singleton1" := VRef r]> (globals σ)))
       (stdout σ ++ ["True"]) (log σ)).
Proof.
  intros Hi Hr. unfold usage, mbind, M_bind.
  rewrite (call_initialized σ r) by done.
  unfold store_global at 1.
  rewrite (call_initialized _ r) by done.
  unfold store_global, load_global. cbn.
  rewrite lookup_insert_ne by done. rewrite !lookup_insert_eq.
  unfold print. cbn. rewrite lookup_insert_eq. cbn.
  by rewrite bool_decide_eq_true_2.
Qed.

(** Run while the slot is absent, the first call constructs and the lines
    go on as they do from the state it leaves. *)
Lemma usage_uninitialized σ :
  _instance σ = VNone → usage σ = usage (after_construction σ [] ∅).
Proof.
  intros Hn. unfold usage, mbind, M_bind.
  rewrite (call_constructs σ) by done.
  rewrite (call_initialized (after_construction σ [] ∅) (length (heap σ)));
    [done|done|].
  cbn. by rewrite lookup_app_r, Nat.sub_diag.
Qed.

(** X6. Run in any reachable state, whether the holder is initialized or
    not and whatever happened before (failed calls included), the usage
    lines complete without raising, print exactly one line, [True], bind
    [singleton1] and [singleton2] to the instance the slot holds
    afterwards, and leave the holder initialized, having run the constructor
    only if the holder was uninitialized. *)
Theorem usage_in_any_reachable_state σ :
  reachable σ →
  (usage σ).1 = Ok tt
  ∧ stdout (usage σ).2 = stdout σ ++ ["True"]
  ∧ phase_of (usage σ).2 = Initialized
  ∧ slot_ok (usage σ).2
  ∧ globals (usage σ).2 !! "singleton1" = Some (_instance (usage σ).2)
  ∧ globals (usage σ).2 !! "singleton2" = Some (_instance (usage σ).2)
  ∧ ctor_runs (usage σ).2
    = match phase_of σ with
      | Uninitialized => S (ctor_runs σ)
      | Initialized => ctor_runs σ
      end.
Proof.
  intros Hσ. destruct (reachable_slot_ok σ Hσ) as [Hn | (r & Hi & Hr)].
  - rewrite (usage_uninitialized σ) by done.
    rewrite (usage_initialized (after_construction σ [] ∅) (length (heap σ)));
      [|done|by cbn; rewrite lookup_app_r, Nat.sub_diag].
    cbn [fst snd stdout globals _instance after_construction].
    unfold phase_of at 2. rewrite Hn.
    destruct (after_construction_counts σ [] ∅) as (Hc & _).
    repeat split; try done.
    + apply slot_ok_after_construction.
    + by rewrite lookup_insert_ne, lookup_insert_eq.
    + by rewrite lookup_insert_eq.
  - rewrite (usage_initialized σ r) by done.
    cbn [fst snd stdout globals _instance].
    unfold phase_of. rewrite Hi.
    repeat split; try done.
    + right. by exists r.
    + by rewrite lookup_insert_ne, lookup_insert_eq.
    + by rewrite lookup_insert_eq.
Qed.

Lemma usage_in_any_reachable_state_witness :
  reachable (perform (ACall [VBool true] ∅) fresh).2
  ∧ stdout (usage (perform (ACall [VBool true] ∅) fresh).2).2 = [] ++ ["True"].
Proof.
  assert (Hr : reachable (perform (ACall [VBool true] ∅) fresh).2)
    by (apply reach_step, reach_fresh).
  split; [exact Hr|].
  apply (usage_in_any_reachable_state _ Hr).
Defined.

(** ** A call after a call that returned *)



